(** * SASLprep (packages/saslprep/src/index.ts)

    Shallow embedding of [toCodePoints] and [saslprep].

    - A JavaScript string is its list of UTF-16 code units, each a [Z];
      a string the engine hands us has every unit in [0, 0xFFFF]
      ([utf16] below).
    - The six tables of [createMemoryCodePoints] are exposed through
      [.get(codePoint)], a boolean lookup; they are modelled as
      [Z -> bool].
    - [String.prototype.normalize('NFKC')] is the engine's primitive; it
      is a parameter [normalize] of the pipeline.
    - Exceptions are the [Throw] case of a small error monad. *)

From Stdlib Require Import ZArith List Bool Lia.
Import ListNotations.
Open Scope Z_scope.

(** ** Strings, results, tables *)

Definition jsstring := list Z.

Definition utf16 (s : jsstring) : Prop := Forall (fun u => 0 <= u <= 0xFFFF) s.

(** What a call can throw. [ProhibitedCharacter] ... [BidiEdgePlacement] are
    the four [throw new Error(...)] of [saslprep]; [RangeError] is thrown by
    [String.fromCodePoint] on a value outside [0, 0x10FFFF];
    [UndefinedCodePointAt] is the [TypeError] of [undefined.codePointAt(0)]. *)
Inductive exn :=
| ProhibitedCharacter
| UnassignedCodePoint
| BidiMixedDirection
| BidiEdgePlacement
| RangeError
| UndefinedCodePointAt.

Inductive result (A : Type) :=
| Ok (a : A)
| Throw (e : exn).
Arguments Ok {A} a.
Arguments Throw {A} e.

Definition bind {A B} (m : result A) (k : A -> result B) : result B :=
  match m with
  | Ok a => k a
  | Throw e => Throw e
  end.

Notation "'let*' x := m 'in' k" := (bind m (fun x => k))
  (at level 200, x name, m at level 100, k at level 200).

(** [if (cond) { throw new Error(...) }] *)
Definition throw_if (cond : bool) (e : exn) : result unit :=
  if cond then Throw e else Ok tt.

(** [ReturnType<typeof createMemoryCodePoints>]: six [.get] lookups. *)
Record code_points := {
  unassigned_code_points : Z -> bool;
  commonly_mapped_to_nothing : Z -> bool;
  non_ASCII_space_characters : Z -> bool;
  prohibited_characters : Z -> bool;
  bidirectional_r_al : Z -> bool;
  bidirectional_l : Z -> bool
}.

(** [opts: { allowUnassigned?: boolean }], [None] when the key is absent. *)
Record options := { allowUnassigned : option bool }.

Definition default_options : options := {| allowUnassigned := None |}.

(** ** utils *)

(** [first(x) = x[0]] and [last(x) = x[x.length - 1]] on a string: a
    one-unit string, or [undefined] ([None]) when [x] is empty. *)
Definition first (x : jsstring) : option Z :=
  match x with
  | [] => None
  | u :: _ => Some u
  end.

Definition last (x : jsstring) : option Z :=
  match rev x with
  | [] => None
  | u :: _ => Some u
  end.

(** [getCodePoint = character => character.codePointAt(0)]. On a one-unit
    string [codePointAt(0)] is that unit (a lone surrogate included); on
    [undefined] the property access throws a [TypeError]. *)
Definition getCodePoint (character : option Z) : result Z :=
  match character with
  | Some u => Ok u
  | None => Throw UndefinedCodePointAt
  end.

(** [input.charCodeAt(i)] for [i < input.length]. *)
Definition charCodeAt (input : jsstring) (i : nat) : Z := nth i input 0.

Definition is_high (u : Z) : bool := (0xD800 <=? u) && (u <=? 0xDBFF).
Definition is_low (u : Z) : bool := (0xDC00 <=? u) && (u <=? 0xDFFF).

(** ** toCodePoints

    The [for (let i = 0; i < size; i += 1)] loop; [fuel] bounds the
    iterations (each one advances [i] by at least one, so [size] is
    enough) and [codepoints] is the array pushed to. *)
Fixpoint toCodePoints_loop (input : jsstring) (fuel : nat) (i : nat)
    (codepoints : list Z) : list Z :=
  match fuel with
  | O => codepoints
  | S fuel' =>
      let size := length input in
      if Nat.ltb i size then
        let before := charCodeAt input i in
        if is_high before && Nat.ltb (i + 1) size then
          let next := charCodeAt input (i + 1) in
          if is_low next then
            toCodePoints_loop input fuel' (i + 2)
              (codepoints ++ [(before - 0xD800) * 0x400 + next - 0xDC00 + 0x10000])
          else toCodePoints_loop input fuel' (i + 1) (codepoints ++ [before])
        else toCodePoints_loop input fuel' (i + 1) (codepoints ++ [before])
      else codepoints
  end.

Definition toCodePoints (input : jsstring) : list Z :=
  toCodePoints_loop input (length input) 0 [].

(** The decoder as the specification describes it, scanning the units. *)
Fixpoint decode_spec (s : jsstring) : list Z :=
  match s with
  | [] => []
  | u :: rest =>
      match rest with
      | n :: rest' =>
          if is_high u && is_low n
          then ((u - 0xD800) * 0x400 + (n - 0xDC00) + 0x10000) :: decode_spec rest'
          else u :: decode_spec rest
      | [] => [u]
      end
  end.

(** ** String.fromCodePoint

    Each code point becomes one unit below 0x10000 and a surrogate pair
    up to 0x10FFFF; anything else throws a [RangeError]. *)
Definition encode_code_point (cp : Z) : result (list Z) :=
  if (0 <=? cp) && (cp <=? 0xFFFF) then Ok [cp]
  else if (0x10000 <=? cp) && (cp <=? 0x10FFFF) then
    Ok [0xD800 + (cp - 0x10000) / 0x400; 0xDC00 + (cp - 0x10000) mod 0x400]
  else Throw RangeError.

Fixpoint fromCodePoint (cps : list Z) : result jsstring :=
  match cps with
  | [] => Ok []
  | cp :: rest =>
      let* units := encode_code_point cp in
      let* tail := fromCodePoint rest in
      Ok (units ++ tail)
  end.

(** ** saslprep *)

Section Saslprep.

(** [String.prototype.normalize('NFKC')]. *)
Variable normalize : jsstring -> jsstring.

(** Step 1: [toCodePoints(input).map(...).filter(...)]. *)
Definition mapped_input (T : code_points) (cps : list Z) : list Z :=
  filter (fun character => negb (commonly_mapped_to_nothing T character))
    (map (fun character =>
            if non_ASCII_space_characters T character then 0x20 else character)
       cps).

(** Step 2: [String.fromCodePoint.apply(null, mapped_input).normalize('NFKC')]. *)
Definition normalized_input (T : code_points) (input : jsstring) : result jsstring :=
  let* s := fromCodePoint (mapped_input T (toCodePoints input)) in
  Ok (normalize s).

Definition saslprep (T : code_points) (input : jsstring) (opts : options)
    : result jsstring :=
  if Nat.eqb (length input) 0 then Ok [] else
  let* normalized_input := normalized_input T input in
  let normalized_map := toCodePoints normalized_input in
  (* 3. Prohibit *)
  let hasProhibited := existsb (prohibited_characters T) normalized_map in
  let* _ := throw_if hasProhibited ProhibitedCharacter in
  (* Unassigned Code Points *)
  let* _ :=
    if negb (match allowUnassigned opts with Some true => true | _ => false end)
    then
      let hasUnassigned := existsb (unassigned_code_points T) normalized_map in
      throw_if hasUnassigned UnassignedCodePoint
    else Ok tt in
  (* 4. check bidi *)
  let hasBidiRAL := existsb (bidirectional_r_al T) normalized_map in
  let hasBidiL := existsb (bidirectional_l T) normalized_map in
  let* _ := throw_if (hasBidiRAL && hasBidiL) BidiMixedDirection in
  let* firstCP := getCodePoint (first normalized_input) in
  let isFirstBidiRAL := bidirectional_r_al T firstCP in
  let* lastCP := getCodePoint (last normalized_input) in
  let isLastBidiRAL := bidirectional_r_al T lastCP in
  let* _ := throw_if (hasBidiRAL && negb (isFirstBidiRAL && isLastBidiRAL))
              BidiEdgePlacement in
  Ok normalized_input.

End Saslprep.

(** The mapping step read as the specification words it: per code point,
    substitute the space first, then test the substituted value. *)
Fixpoint map_step_spec (T : code_points) (cps : list Z) : list Z :=
  match cps with
  | [] => []
  | c :: rest =>
      let v := if non_ASCII_space_characters T c then 0x20 else c in
      if commonly_mapped_to_nothing T v then map_step_spec T rest
      else v :: map_step_spec T rest
  end.

(** ** Concrete instances used at concrete inputs *)

(** [normalize('NFKC')] on the strings of the concrete checks below: all of
    them (ASCII letters, U+00AD, U+05D0, U+10000, U+1E800, lone surrogates
    and the empty string) have no decomposition, so NFKC returns them as
    they are. *)
Definition nfkc_on_stable (s : jsstring) : jsstring := s.

Definition no_code_points : Z -> bool := fun _ => false.

Definition mk_tables (unassigned nothing space prohibited r_al l : Z -> bool)
    : code_points :=
  {| unassigned_code_points := unassigned;
     commonly_mapped_to_nothing := nothing;
     non_ASCII_space_characters := space;
     prohibited_characters := prohibited;
     bidirectional_r_al := r_al;
     bidirectional_l := l |}.

(** ASCII letters are LCat, U+05D0 (HEBREW LETTER ALEF) and U+1E800
    (MENDE KIKAKUI SYLLABLE M001 KI) are RandALCat, U+00AD (SOFT HYPHEN) is
    mapped to nothing, U+00A0 (NO-BREAK SPACE) to space, U+0378 is
    unassigned, U+0000 is prohibited. *)
Definition ascii_letter (c : Z) : bool :=
  ((0x41 <=? c) && (c <=? 0x5A)) || ((0x61 <=? c) && (c <=? 0x7A)).

Definition sample_tables : code_points :=
  mk_tables (fun c => c =? 0x378) (fun c => c =? 0xAD) (fun c => c =? 0xA0)
    (fun c => c =? 0) (fun c => (c =? 0x5D0) || (c =? 0x1E800)) ascii_letter.

(** Tables whose commonly-mapped-to-nothing set also holds the
    supplementary code point U+10000. *)
Definition pairing_tables : code_points :=
  mk_tables no_code_points (fun c => (c =? 0xAD) || (c =? 0x10000))
    no_code_points no_code_points no_code_points ascii_letter.

(** ** Lemmas about the decoder and the encoder *)

Lemma skipn_cons_nth (s : list Z) (i : nat) :
  (i < length s)%nat -> skipn i s = nth i s 0 :: skipn (S i) s.
Proof.
  revert i; induction s as [|a s IH]; intros [|i] H; simpl in *; try lia; auto.
  apply IH; lia.
Qed.

Lemma toCodePoints_loop_spec (s : jsstring) (fuel i : nat) (cps : list Z) :
  (length s - i <= fuel)%nat ->
  toCodePoints_loop s fuel i cps = cps ++ decode_spec (skipn i s).
Proof.
  revert i cps; induction fuel as [|fuel IH]; intros i cps Hf; simpl.
  - rewrite skipn_all2 by lia. simpl. now rewrite app_nil_r.
  - destruct (Nat.ltb_spec i (length s)) as [Hi|Hi].
    + rewrite (skipn_cons_nth s i Hi). unfold charCodeAt.
      destruct (Nat.ltb_spec (i + 1) (length s)) as [Hi1|Hi1].
      * rewrite (skipn_cons_nth s (S i)) by lia.
        replace (i + 1)%nat with (S i) by lia.
        simpl decode_spec. rewrite andb_true_r.
        destruct (is_high (nth i s 0)) eqn:Hh; simpl;
          [destruct (is_low (nth (S i) s 0)) eqn:Hl; simpl|].
        -- rewrite IH by lia. replace (i + 2)%nat with (S (S i)) by lia.
           rewrite <- app_assoc. cbn [app]. do 3 f_equal. lia.
        -- rewrite IH by lia. replace (i + 1)%nat with (S i) by lia.
           rewrite <- app_assoc. cbn [app].
           rewrite (skipn_cons_nth s (S i)) by lia. reflexivity.
        -- rewrite IH by lia. replace (i + 1)%nat with (S i) by lia.
           rewrite <- app_assoc. cbn [app].
           rewrite (skipn_cons_nth s (S i)) by lia. reflexivity.
      * assert (skipn (S i) s = []) as -> by (apply skipn_all2; lia).
        simpl decode_spec.
        rewrite andb_false_r. rewrite IH by lia.
        replace (i + 1)%nat with (S i) by lia.
        rewrite skipn_all2 by lia. simpl. now rewrite app_nil_r.
    + rewrite skipn_all2 by lia. simpl. now rewrite app_nil_r.
Qed.

Lemma toCodePoints_decode_spec (s : jsstring) : toCodePoints s = decode_spec s.
Proof.
  unfold toCodePoints. rewrite toCodePoints_loop_spec by lia. reflexivity.
Qed.

Ltac zleb :=
  repeat match goal with
         | |- context [?a <=? ?b] => destruct (Z.leb_spec a b)
         | H : context [?a <=? ?b] |- _ => destruct (Z.leb_spec a b)
         end; cbn [andb orb negb] in *; try lia.

(** Strong induction on a string along the two shapes [decode_spec] takes. *)
Lemma jsstring_pair_ind (P : jsstring -> Prop) :
  P [] -> (forall u, P [u]) ->
  (forall u n r, P r -> P (n :: r) -> P (u :: n :: r)) ->
  forall s, P s.
Proof.
  intros H0 H1 H2 s.
  assert (Hs : forall k s, (length s <= k)%nat -> P s).
  { induction k as [|k IH]; intros [|u [|n r]] Hl; simpl in Hl; auto; try lia.
    apply H2; apply IH; simpl; lia. }
  apply (Hs (length s)); lia.
Qed.

(** A decoded value below 0x10000 is a unit of the string. *)
Lemma decode_spec_in (s : jsstring) (c : Z) :
  In c (decode_spec s) -> In c s \/ 0x10000 <= c.
Proof.
  induction s as [|u|u n r IHr IHnr] using jsstring_pair_ind; simpl; [tauto|tauto|].
  destruct (is_high u && is_low n) eqn:E; simpl.
  - unfold is_high, is_low in E. apply andb_true_iff in E as [E1 E2].
    apply andb_true_iff in E1 as [E1 E1']; apply andb_true_iff in E2 as [E2 E2'].
    apply Z.leb_le in E1, E1', E2, E2'.
    intros [<-|Hc]; [right; lia|]. destruct (IHr Hc); simpl; tauto.
  - intros [<-|Hc]; [tauto|]. destruct (IHnr Hc) as [Hin|]; simpl in *; tauto.
Qed.

(** A unit of [String.fromCodePoint(...cps)] that is not a surrogate is one
    of the code points. *)
Lemma fromCodePoint_in (cps : list Z) (s : jsstring) (c : Z) :
  fromCodePoint cps = Ok s -> In c s -> c < 0xD800 \/ 0xDFFF < c -> In c cps.
Proof.
  revert s; induction cps as [|cp cps IH]; intros s Hs Hc Hnot; cbv beta iota delta [fromCodePoint] in Hs; fold fromCodePoint in Hs.
  - inversion Hs; subst; contradiction.
  - unfold encode_code_point in Hs.
    destruct ((0 <=? cp) && (cp <=? 0xFFFF)) eqn:E1; cbv beta iota delta [bind] in Hs.
    + destruct (fromCodePoint cps) as [t|e] eqn:Ht; cbv beta iota delta [bind] in Hs; [|discriminate].
      inversion Hs; subst. destruct Hc as [<-|Hc]; [left; reflexivity|].
      right; eapply IH; eauto.
    + destruct ((0x10000 <=? cp) && (cp <=? 0x10FFFF)) eqn:E2; cbv beta iota delta [bind] in Hs;
        [|discriminate].
      destruct (fromCodePoint cps) as [t|e] eqn:Ht; cbv beta iota delta [bind] in Hs; [|discriminate].
      match type of Hs with
      | Ok ?v = Ok _ => assert (Hv : v = s) by congruence
      end; subst s.
      apply andb_true_iff in E2 as [E2 E2']; apply Z.leb_le in E2, E2'.
      assert (Hq : 0 <= (cp - 0x10000) / 0x400 < 0x400).
      { split; [apply Z.div_pos; lia|apply Z.div_lt_upper_bound; lia]. }
      assert (Hr : 0 <= (cp - 0x10000) mod 0x400 < 0x400) by (apply Z.mod_pos_bound; lia).
      destruct Hc as [<-|[<-|Hc]]; [exfalso; lia|exfalso; lia|].
      right; eapply IH; eauto.
Qed.

Lemma decode_spec_cons2 (u n : Z) (r : jsstring) :
  decode_spec (u :: n :: r) =
  if is_high u && is_low n
  then ((u - 0xD800) * 0x400 + (n - 0xDC00) + 0x10000) :: decode_spec r
  else u :: decode_spec (n :: r).
Proof. reflexivity. Qed.

(** Re-encoding a decoded string gives the string back. *)
Lemma fromCodePoint_decode_spec (s : jsstring) :
  utf16 s -> fromCodePoint (decode_spec s) = Ok s.
Proof.
  induction s as [|u|u n r IHr IHnr] using jsstring_pair_ind; intros Hs.
  - reflexivity.
  - inversion Hs as [|? ? Hu _]; subst. simpl. unfold encode_code_point.
    zleb. reflexivity.
  - inversion Hs as [|? ? Hu Hnr]; subst. inversion Hnr as [|? ? Hn Hr]; subst.
    rewrite decode_spec_cons2. destruct (is_high u && is_low n) eqn:E.
    + unfold is_high, is_low in E. apply andb_true_iff in E as [E1 E2].
      apply andb_true_iff in E1 as [E1 E1']; apply andb_true_iff in E2 as [E2 E2'].
      apply Z.leb_le in E1, E1', E2, E2'.
      simpl. rewrite (IHr Hr). unfold encode_code_point.
      set (cp := (u - 0xD800) * 0x400 + (n - 0xDC00) + 0x10000).
      assert (Hd : (cp - 0x10000) / 0x400 = u - 0xD800).
      { symmetry; apply Z.div_unique with (r := n - 0xDC00); unfold cp; lia. }
      assert (Hm : (cp - 0x10000) mod 0x400 = n - 0xDC00).
      { symmetry; apply Z.mod_unique with (q := u - 0xD800); unfold cp; lia. }
      rewrite Hd, Hm. unfold cp. zleb. cbn [bind app].
      do 3 f_equal; lia.
    + change (fromCodePoint (u :: decode_spec (n :: r)))
        with (let* units := encode_code_point u in
              let* tail := fromCodePoint (decode_spec (n :: r)) in
              Ok (units ++ tail)).
      rewrite (IHnr Hnr). unfold encode_code_point. zleb. reflexivity.
Qed.

Lemma fromCodePoint_toCodePoints (s : jsstring) :
  utf16 s -> fromCodePoint (toCodePoints s) = Ok s.
Proof. rewrite toCodePoints_decode_spec. apply fromCodePoint_decode_spec. Qed.

Lemma mapped_input_map_step_spec (T : code_points) (cps : list Z) :
  mapped_input T cps = map_step_spec T cps.
Proof.
  induction cps as [|c cps IH]; simpl; [reflexivity|].
  unfold mapped_input in *. simpl.
  destruct (commonly_mapped_to_nothing T
              (if non_ASCII_space_characters T c then 0x20 else c)); simpl;
    now rewrite IH.
Qed.

Lemma mapped_input_not_nothing (T : code_points) (cps : list Z) (c : Z) :
  In c (mapped_input T cps) -> commonly_mapped_to_nothing T c = false.
Proof.
  unfold mapped_input. intros Hin. apply filter_In in Hin as [_ H].
  now apply negb_true_iff in H.
Qed.

Lemma mapped_input_id (T : code_points) (cps : list Z) :
  (forall c, In c cps -> commonly_mapped_to_nothing T c = false /\
                         (non_ASCII_space_characters T c = true -> c = 0x20)) ->
  mapped_input T cps = cps.
Proof.
  induction cps as [|c cps IH]; intros H; [reflexivity|].
  unfold mapped_input in *; simpl.
  destruct (H c (or_introl eq_refl)) as [Hn Hs].
  destruct (non_ASCII_space_characters T c) eqn:Es.
  - rewrite (Hs eq_refl) in *. rewrite Hn. simpl. f_equal.
    apply IH. intros; apply H; simpl; auto.
  - rewrite Hn. simpl. f_equal. apply IH. intros; apply H; simpl; auto.
Qed.

(** ** Running the pipeline *)

(** Step through the checks of [saslprep] in hypothesis [H] / in the goal. *)
Ltac run_in H :=
  cbv beta iota delta [bind throw_if getCodePoint] in H;
  repeat match type of H with
         | context [if ?b then _ else _] => destruct b eqn:?; cbv beta iota in H
         | context [match ?o with Some _ => _ | None => _ end] =>
             destruct o eqn:?; cbv beta iota in H
         end.

Ltac run :=
  cbv beta iota delta [bind throw_if getCodePoint];
  repeat match goal with
         | |- context [if ?b then _ else _] => destruct b eqn:?; cbv beta iota
         | |- context [match ?o with Some _ => _ | None => _ end] =>
             destruct o eqn:?; cbv beta iota
         end.

Lemma normalized_input_nil normalize T :
  normalized_input normalize T [] = Ok (normalize []).
Proof. reflexivity. Qed.

Lemma saslprep_ok_inv normalize T x opts y :
  x <> [] -> saslprep normalize T x opts = Ok y ->
  normalized_input normalize T x = Ok y /\ y <> [].
Proof.
  intros Hx H. destruct x as [|u x']; [congruence|].
  unfold saslprep in H. change (Nat.eqb (length (u :: x')) 0) with false in H.
  cbv iota in H.
  destruct (normalized_input normalize T (u :: x')) as [y'|e] eqn:Hn;
    cbv beta iota delta [bind] in H; [|discriminate].
  run_in H; try discriminate;
    (injection H as <-; split; [reflexivity|intros ->; simpl in *; congruence]).
Qed.

(** Two non-empty inputs with the same normalized string give the same
    result: everything after step 2 reads only the normalized string. *)
Lemma saslprep_same_normalized normalize T x x' opts :
  x <> [] -> x' <> [] ->
  normalized_input normalize T x = normalized_input normalize T x' ->
  saslprep normalize T x opts = saslprep normalize T x' opts.
Proof.
  intros Hx Hx' Hn. destruct x as [|u x]; [congruence|].
  destruct x' as [|u' x']; [congruence|].
  unfold saslprep. change (Nat.eqb (length (u :: x)) 0) with false.
  change (Nat.eqb (length (u' :: x')) 0) with false. cbv iota.
  rewrite Hn. reflexivity.
Qed.

Lemma mapped_input_all_nothing (T : code_points) (cps : list Z) :
  Forall (fun c => commonly_mapped_to_nothing T c &&
                   negb (non_ASCII_space_characters T c) = true) cps ->
  mapped_input T cps = [].
Proof.
  induction 1 as [|c cps Hc _ IH]; [reflexivity|].
  apply andb_true_iff in Hc as [Hn Hs]. apply negb_true_iff in Hs.
  unfold mapped_input in *. simpl. rewrite Hs, Hn. exact IH.
Qed.

(** The tables with the unassigned set emptied. *)
Definition without_unassigned (T : code_points) : code_points :=
  mk_tables no_code_points (commonly_mapped_to_nothing T)
    (non_ASCII_space_characters T) (prohibited_characters T)
    (bidirectional_r_al T) (bidirectional_l T).

(** * Properties *)

(** C1 (the RandALCat edge check). [isFirstBidiRAL] and [isLastBidiRAL]
    look up the first and the last UTF-16 unit of the normalized string,
    not the first and the last entry of [normalized_map]. With U+1E800 in
    the RandALCat table, the one-character string U+1E800 (units D83A DC00)
    decodes to [0x1E800], a RandALCat code point at both ends, passes the
    prohibit, unassigned and mixed-direction checks, and still fails with
    [BidiEdgePlacement] because the lone unit D83A is not in the table. *)
Theorem edge_check_reads_code_units :
  toCodePoints [0xD83A; 0xDC00] = [0x1E800] /\
  bidirectional_r_al sample_tables 0x1E800 = true /\
  existsb (prohibited_characters sample_tables) [0x1E800] = false /\
  existsb (unassigned_code_points sample_tables) [0x1E800] = false /\
  existsb (bidirectional_l sample_tables) [0x1E800] = false /\
  saslprep nfkc_on_stable sample_tables [0xD83A; 0xDC00] default_options
    = Throw BidiEdgePlacement.
Proof. repeat split; vm_compute; reflexivity. Qed.

(** C2 (empty normalized string). A non-empty input whose every code point
    is mapped to nothing (and none is a non-ASCII space) maps and normalizes
    to the empty string; [first('')] is [undefined] and
    [getCodePoint(undefined)] throws a [TypeError], so [saslprep] returns
    neither a string nor one of its own errors. *)
Theorem empty_after_mapping_throws_type_error normalize T x opts :
  x <> [] ->
  Forall (fun c => commonly_mapped_to_nothing T c &&
                   negb (non_ASCII_space_characters T c) = true) (toCodePoints x) ->
  normalize [] = [] ->
  saslprep normalize T x opts = Throw UndefinedCodePointAt.
Proof.
  intros Hx Hall H0. destruct x as [|u x']; [congruence|].
  assert (Hn : normalized_input normalize T (u :: x') = Ok []).
  { unfold normalized_input. rewrite (mapped_input_all_nothing T _ Hall).
    cbv beta iota delta [fromCodePoint bind]. now rewrite H0. }
  unfold saslprep. change (Nat.eqb (length (u :: x')) 0) with false.
  cbv iota. rewrite Hn. cbv beta iota delta [bind].
  change (toCodePoints []) with (@nil Z). cbn [existsb andb negb].
  destruct (allowUnassigned opts) as [[]|]; reflexivity.
Qed.

Lemma empty_after_mapping_throws_type_error_witness :
  saslprep nfkc_on_stable sample_tables [0xAD] default_options
    = Throw UndefinedCodePointAt.
Proof.
  apply (empty_after_mapping_throws_type_error nfkc_on_stable sample_tables
           [0xAD] default_options).
  - discriminate.
  - vm_compute. repeat constructor.
  - reflexivity.
Defined.

(** C3 (idempotence), as stated: it fails. With U+10000 in the
    commonly-mapped-to-nothing table, the input D800 00AD DC00 keeps its two
    lone surrogates, which [String.fromCodePoint] writes next to each other:
    the result is the string U+10000. Preparing that string decodes the
    pair to U+10000, drops it, and hits the empty-string [TypeError]. *)
Lemma idempotence_counterexample :
  saslprep nfkc_on_stable pairing_tables [0xD800; 0xAD; 0xDC00] default_options
    = Ok [0xD800; 0xDC00] /\
  saslprep nfkc_on_stable pairing_tables [0xD800; 0xDC00] default_options
    <> Ok [0xD800; 0xDC00].
Proof. split; vm_compute; [reflexivity|discriminate]. Qed.

(** C3 (idempotence), amended. When NFKC is idempotent, the output is a
    well-formed UTF-16 string, and the mapping step leaves the output's code
    points alone (none is mapped to nothing, and a non-ASCII space among
    them can only be U+0020 itself), preparing the output again returns it
    unchanged. *)
Theorem idempotent_on_unmapped_output normalize T x opts y :
  (forall s, normalize (normalize s) = normalize s) ->
  saslprep normalize T x opts = Ok y ->
  utf16 y ->
  (forall c, In c (toCodePoints y) ->
             commonly_mapped_to_nothing T c = false /\
             (non_ASCII_space_characters T c = true -> c = 0x20)) ->
  saslprep normalize T y opts = Ok y.
Proof.
  intros Hidem H Hy Hmap. destruct x as [|u x'].
  - injection H as <-. reflexivity.
  - destruct (saslprep_ok_inv normalize T (u :: x') opts y ltac:(discriminate) H)
      as [Hn Hne].
    assert (Hyy : normalized_input normalize T y = Ok y).
    { unfold normalized_input. rewrite (mapped_input_id T _ Hmap).
      rewrite (fromCodePoint_toCodePoints y Hy). cbv beta iota delta [bind].
      unfold normalized_input in Hn.
      destruct (fromCodePoint (mapped_input T (toCodePoints (u :: x'))))
        as [s|e]; cbv beta iota delta [bind] in Hn; [|discriminate].
      injection Hn as <-. now rewrite Hidem. }
    rewrite <- H. apply saslprep_same_normalized; [exact Hne|discriminate|].
    now rewrite Hyy, Hn.
Qed.

Lemma idempotent_on_unmapped_output_witness :
  saslprep nfkc_on_stable sample_tables [0x61; 0xA0; 0x62] default_options
    = Ok [0x61; 0x20; 0x62] /\
  saslprep nfkc_on_stable sample_tables [0x61; 0x20; 0x62] default_options
    = Ok [0x61; 0x20; 0x62].
Proof.
  split; [vm_compute; reflexivity|].
  apply (idempotent_on_unmapped_output nfkc_on_stable sample_tables
           [0x61; 0xA0; 0x62] default_options [0x61; 0x20; 0x62]).
  - reflexivity.
  - vm_compute; reflexivity.
  - unfold utf16; repeat constructor; lia.
  - vm_compute. intros c [<-|[<-|[<-|[]]]]; split; congruence.
Defined.

(** C4 (the decoder). The index loop of [toCodePoints] computes
    [decode_spec]: a high surrogate followed by a low surrogate becomes
    [(high - 0xD800) * 0x400 + (low - 0xDC00) + 0x10000] and both are
    consumed; any other unit is emitted as it is; the empty string decodes
    to the empty list, and the function is total. *)
Theorem toCodePoints_scans_units (s : jsstring) :
  toCodePoints s = decode_spec s.
Proof. apply toCodePoints_decode_spec. Qed.

(** C5 (mapping order). The mapped sequence fed to [String.fromCodePoint]
    is [map_step_spec]: each code point is first tested against the
    non-ASCII-space table and replaced by U+0020, and the
    commonly-mapped-to-nothing table is then tested on the replaced value. *)
Theorem mapping_space_then_nothing normalize T input :
  normalized_input normalize T input =
  (let* s := fromCodePoint (map_step_spec T (toCodePoints input)) in
   Ok (normalize s)).
Proof. unfold normalized_input. now rewrite mapped_input_map_step_spec. Qed.

(** C6 (prohibit check). Writing [y] for the normalized string (with
    [normalize('') = '']): a prohibited code point in [toCodePoints y] makes
    [saslprep] throw [ProhibitedCharacter] whatever the later checks would
    say, and without one that error is never thrown. *)
Theorem prohibited_check normalize T x opts y :
  normalize [] = [] ->
  normalized_input normalize T x = Ok y ->
  (existsb (prohibited_characters T) (toCodePoints y) = true ->
   saslprep normalize T x opts = Throw ProhibitedCharacter) /\
  (existsb (prohibited_characters T) (toCodePoints y) = false ->
   saslprep normalize T x opts <> Throw ProhibitedCharacter).
Proof.
  intros H0 Hn. destruct x as [|u x'].
  - rewrite normalized_input_nil, H0 in Hn. injection Hn as <-.
    split; intros E; [discriminate E|discriminate].
  - unfold saslprep. change (Nat.eqb (length (u :: x')) 0) with false.
    cbv iota. rewrite Hn. split; intros E.
    + cbv beta iota delta [bind throw_if]. now rewrite E.
    + run; congruence.
Qed.

Lemma prohibited_check_witness :
  saslprep nfkc_on_stable sample_tables [0x5D0; 0; 0x378; 0x61] default_options
    = Throw ProhibitedCharacter /\
  saslprep nfkc_on_stable sample_tables [0x5D0; 0x61] default_options
    <> Throw ProhibitedCharacter.
Proof.
  split.
  - apply (proj1 (prohibited_check nfkc_on_stable sample_tables
                    [0x5D0; 0; 0x378; 0x61] default_options [0x5D0; 0; 0x378; 0x61]
                    eq_refl ltac:(vm_compute; reflexivity))).
    vm_compute; reflexivity.
  - apply (proj2 (prohibited_check nfkc_on_stable sample_tables
                    [0x5D0; 0x61] default_options [0x5D0; 0x61]
                    eq_refl ltac:(vm_compute; reflexivity))).
    vm_compute; reflexivity.
Defined.

(** C7 (unassigned check). Past the prohibit check: unless
    [allowUnassigned] is [true], an unassigned code point makes [saslprep]
    throw [UnassignedCodePoint]; with [allowUnassigned: true] the result is
    the one of the same tables with an empty unassigned set, and an
    unassigned code point whose string passes the bidi checks is returned. *)
Theorem unassigned_check normalize T x opts y :
  normalize [] = [] ->
  normalized_input normalize T x = Ok y ->
  existsb (prohibited_characters T) (toCodePoints y) = false ->
  (allowUnassigned opts <> Some true ->
   existsb (unassigned_code_points T) (toCodePoints y) = true ->
   saslprep normalize T x opts = Throw UnassignedCodePoint) /\
  (allowUnassigned opts = Some true ->
   saslprep normalize T x opts = saslprep normalize (without_unassigned T) x opts) /\
  (allowUnassigned opts = Some true ->
   existsb (unassigned_code_points T) (toCodePoints y) = true ->
   existsb (bidirectional_r_al T) (toCodePoints y) &&
     existsb (bidirectional_l T) (toCodePoints y) = false ->
   (existsb (bidirectional_r_al T) (toCodePoints y) = true ->
    option_map (bidirectional_r_al T) (first y) = Some true /\
    option_map (bidirectional_r_al T) (last y) = Some true) ->
   saslprep normalize T x opts = Ok y).
Proof.
  intros H0 Hn Hp. destruct x as [|u x'].
  - rewrite normalized_input_nil, H0 in Hn. injection Hn as <-.
    repeat split; intros; (discriminate || reflexivity).
  - assert (Hn' : normalized_input normalize (without_unassigned T) (u :: x') = Ok y)
      by exact Hn.
    unfold saslprep. change (Nat.eqb (length (u :: x')) 0) with false.
    cbv iota. rewrite Hn, Hn'. cbv beta iota delta [bind throw_if].
    rewrite Hp. cbn [without_unassigned mk_tables prohibited_characters].
    rewrite Hp. repeat split.
    + intros Ha Hu. destruct (allowUnassigned opts) as [[]|]; [congruence| |];
        cbv beta iota; now rewrite Hu.
    + intros ->. reflexivity.
    + intros Ha Hu Hmix Hedge. rewrite Ha. cbv beta iota. rewrite Hmix.
      destruct (existsb (bidirectional_r_al T) (toCodePoints y)) eqn:Hral.
      * destruct (Hedge eq_refl) as [Hf Hl].
        destruct (first y) as [f|]; [|discriminate]; injection Hf as Hf.
        destruct (last y) as [l|]; [|discriminate]; injection Hl as Hl.
        cbn [negb getCodePoint andb]. now rewrite Hf, Hl.
      * destruct (first y) as [f|] eqn:Hf.
        -- destruct (last y) as [l|] eqn:Hl; [reflexivity|].
           destruct y; [discriminate|]. unfold last in Hl.
           destruct (rev (z :: y)) eqn:Hr; [|discriminate].
           apply (f_equal (@length Z)) in Hr. rewrite length_rev in Hr.
           discriminate.
        -- destruct y; [|discriminate]. simpl in Hu. discriminate.
Qed.

Definition allow_unassigned : options := {| allowUnassigned := Some true |}.

Lemma unassigned_check_witness :
  saslprep nfkc_on_stable sample_tables [0x378] default_options
    = Throw UnassignedCodePoint /\
  saslprep nfkc_on_stable sample_tables [0x378] allow_unassigned
    = saslprep nfkc_on_stable (without_unassigned sample_tables) [0x378]
        allow_unassigned /\
  saslprep nfkc_on_stable sample_tables [0x378] allow_unassigned = Ok [0x378].
Proof.
  destruct (unassigned_check nfkc_on_stable sample_tables [0x378] default_options
              [0x378] eq_refl ltac:(vm_compute; reflexivity)
              ltac:(vm_compute; reflexivity)) as [H1 _].
  destruct (unassigned_check nfkc_on_stable sample_tables [0x378] allow_unassigned
              [0x378] eq_refl ltac:(vm_compute; reflexivity)
              ltac:(vm_compute; reflexivity)) as [_ [H2 H3]].
  split; [apply H1; [discriminate|vm_compute; reflexivity]|].
  split; [apply H2; reflexivity|].
  apply H3; [reflexivity|vm_compute; reflexivity|vm_compute; reflexivity|].
  vm_compute. discriminate.
Defined.

(** C8 (mixed direction). Past the prohibit and unassigned checks, a
    normalized string holding both a RandALCat and an LCat code point makes
    [saslprep] throw [BidiMixedDirection]. *)
Theorem mixed_direction_check normalize T x opts y :
  normalize [] = [] ->
  normalized_input normalize T x = Ok y ->
  existsb (prohibited_characters T) (toCodePoints y) = false ->
  allowUnassigned opts = Some true \/
    existsb (unassigned_code_points T) (toCodePoints y) = false ->
  existsb (bidirectional_r_al T) (toCodePoints y) = true ->
  existsb (bidirectional_l T) (toCodePoints y) = true ->
  saslprep normalize T x opts = Throw BidiMixedDirection.
Proof.
  intros H0 Hn Hp Hu Hral Hl. destruct x as [|u x'].
  - rewrite normalized_input_nil, H0 in Hn. injection Hn as <-.
    discriminate Hral.
  - unfold saslprep. change (Nat.eqb (length (u :: x')) 0) with false.
    cbv iota. rewrite Hn. cbv beta iota delta [bind throw_if].
    rewrite Hp, Hral, Hl. cbn [andb].
    destruct Hu as [Ha|Hu].
    + rewrite Ha. reflexivity.
    + rewrite Hu. destruct (allowUnassigned opts) as [[]|]; reflexivity.
Qed.

Lemma mixed_direction_check_witness :
  saslprep nfkc_on_stable sample_tables [0x5D0; 0x61; 0x5D0] default_options
    = Throw BidiMixedDirection.
Proof.
  apply (mixed_direction_check nfkc_on_stable sample_tables [0x5D0; 0x61; 0x5D0]
           default_options [0x5D0; 0x61; 0x5D0]); try reflexivity.
  right; reflexivity.
Defined.

(** C9 (empty input). The empty string is returned at once, whatever the
    tables, the options and the normalization primitive are. *)
Theorem empty_input_returns_empty normalize T opts :
  saslprep normalize T [] opts = Ok [].
Proof. reflexivity. Qed.

(** C10 (mapped to nothing), as stated: it fails. With U+10000 in the
    commonly-mapped-to-nothing table, the input D800 00AD DC00 U+10000
    loses U+10000 and U+00AD in the mapping step, and the two lone
    surrogates left next to each other re-decode to U+10000 in the result. *)
Lemma mapped_to_nothing_counterexample :
  In 0x10000 (toCodePoints [0xD800; 0xAD; 0xDC00; 0xD800; 0xDC00]) /\
  commonly_mapped_to_nothing pairing_tables 0x10000 = true /\
  saslprep nfkc_on_stable pairing_tables [0xD800; 0xAD; 0xDC00; 0xD800; 0xDC00]
    default_options = Ok [0xD800; 0xDC00] /\
  In 0x10000 (toCodePoints [0xD800; 0xDC00]).
Proof. vm_compute. repeat split; auto. Qed.

(** C10 (mapped to nothing), amended. When the commonly-mapped-to-nothing
    table holds only BMP code points outside the surrogate range (as
    StringPrep's B.1 does) and the normalization brings in no code point of
    that table, no code point of that table occurs in a successful result. *)
Theorem mapped_to_nothing_absent normalize T x opts y c :
  (forall c, commonly_mapped_to_nothing T c = true ->
             c < 0xD800 \/ (0xDFFF < c /\ c < 0x10000)) ->
  (forall s c, In c (toCodePoints (normalize s)) ->
               commonly_mapped_to_nothing T c = true -> In c (toCodePoints s)) ->
  saslprep normalize T x opts = Ok y ->
  commonly_mapped_to_nothing T c = true ->
  ~ In c (toCodePoints y).
Proof.
  intros Hbmp Hnf H Hc Hin. destruct x as [|u x'].
  - injection H as <-. exact Hin.
  - destruct (saslprep_ok_inv normalize T (u :: x') opts y ltac:(discriminate) H)
      as [Hn _].
    unfold normalized_input in Hn.
    destruct (fromCodePoint (mapped_input T (toCodePoints (u :: x')))) as [s|e]
      eqn:Hs; cbv beta iota delta [bind] in Hn; [|discriminate].
    injection Hn as <-.
    pose proof (Hnf s c Hin Hc) as Hin_s.
    rewrite toCodePoints_decode_spec in Hin_s.
    destruct (Hbmp c Hc) as [Hlt|[Hgt Hlt]];
      (destruct (decode_spec_in s c Hin_s) as [Hu|]; [|lia]);
      (assert (Hm : In c (mapped_input T (toCodePoints (u :: x'))))
         by (eapply fromCodePoint_in; eauto; lia));
      apply mapped_input_not_nothing in Hm; congruence.
Qed.

Lemma mapped_to_nothing_absent_witness :
  saslprep nfkc_on_stable sample_tables [0x49; 0xAD; 0x58] default_options
    = Ok [0x49; 0x58] /\
  ~ In 0xAD (toCodePoints [0x49; 0x58]).
Proof.
  split; [vm_compute; reflexivity|].
  apply (mapped_to_nothing_absent nfkc_on_stable sample_tables
           [0x49; 0xAD; 0x58] default_options [0x49; 0x58] 0xAD).
  - intros c Hc. apply Z.eqb_eq in Hc. subst c. lia.
  - intros s c' Hin _. exact Hin.
  - vm_compute; reflexivity.
  - reflexivity.
Defined.

(** * Further properties of [toCodePoints] and [saslprep] *)

(** [String.fromCodePoint] succeeds on values in [0, 0x10FFFF]. *)
Lemma fromCodePoint_in_range (cps : list Z) :
  Forall (fun c => 0 <= c <= 0x10FFFF) cps -> exists s, fromCodePoint cps = Ok s.
Proof.
  induction 1 as [|c cps Hc _ [t Ht]]; [exists []; reflexivity|].
  cbn [fromCodePoint]. unfold encode_code_point.
  destruct ((0 <=? c) && (c <=? 0xFFFF)) eqn:E1.
  - exists ([c] ++ t). cbv beta iota delta [bind]. now rewrite Ht.
  - destruct ((0x10000 <=? c) && (c <=? 0x10FFFF)) eqn:E2.
    + eexists. cbv beta iota delta [bind]. rewrite Ht. reflexivity.
    + exfalso. revert E1 E2. zleb; discriminate.
Qed.

Lemma toCodePoints_in_range (s : jsstring) :
  utf16 s -> Forall (fun c => 0 <= c <= 0x10FFFF) (toCodePoints s).
Proof.
  rewrite toCodePoints_decode_spec.
  induction s as [|u|u n r IHr IHnr] using jsstring_pair_ind; intros Hs.
  - constructor.
  - inversion Hs; subst. simpl. constructor; [lia|constructor].
  - inversion Hs as [|? ? Hu Hnr]; subst. inversion Hnr as [|? ? Hn Hr]; subst.
    rewrite decode_spec_cons2. destruct (is_high u && is_low n) eqn:E.
    + unfold is_high, is_low in E. apply andb_true_iff in E as [E1 E2].
      apply andb_true_iff in E1 as [E1 E1']; apply andb_true_iff in E2 as [E2 E2'].
      apply Z.leb_le in E1, E1', E2, E2'.
      constructor; [lia|auto].
    + constructor; [lia|auto].
Qed.

(** Decoding a well-formed string gives values in [0, 0x10FFFF]. *)
Theorem toCodePoints_range (s : jsstring) :
  utf16 s -> Forall (fun c => 0 <= c <= 0x10FFFF) (toCodePoints s).
Proof. apply toCodePoints_in_range. Qed.

Lemma toCodePoints_range_witness :
  Forall (fun c => 0 <= c <= 0x10FFFF) (toCodePoints [0xDBFF; 0xDFFF; 0xD800]).
Proof. apply toCodePoints_range. unfold utf16; repeat constructor; lia. Defined.

(** Encoding the decoded code points of a well-formed string gives the
    string back, lone surrogates included. *)
Theorem toCodePoints_fromCodePoint_roundtrip (s : jsstring) :
  utf16 s -> fromCodePoint (toCodePoints s) = Ok s.
Proof. apply fromCodePoint_toCodePoints. Qed.

Lemma toCodePoints_fromCodePoint_roundtrip_witness :
  fromCodePoint (toCodePoints [0xD800; 0x41; 0xD83A; 0xDC00])
    = Ok [0xD800; 0x41; 0xD83A; 0xDC00].
Proof.
  apply toCodePoints_fromCodePoint_roundtrip. unfold utf16; repeat constructor; lia.
Defined.

(** Decoding what [String.fromCodePoint] makes of Unicode scalar values
    (no surrogate code points) gives the same values back. *)
Theorem fromCodePoint_toCodePoints_roundtrip (cps : list Z) :
  Forall (fun c => 0 <= c <= 0x10FFFF /\ ~ (0xD800 <= c <= 0xDFFF)) cps ->
  exists s, fromCodePoint cps = Ok s /\ toCodePoints s = cps.
Proof.
  intros Hall. setoid_rewrite toCodePoints_decode_spec.
  induction Hall as [|c cps [Hc Hns] _ [t [Ht Hdt]]]; [exists []; split; reflexivity|].
  cbn [fromCodePoint]. unfold encode_code_point.
  destruct ((0 <=? c) && (c <=? 0xFFFF)) eqn:E1.
  - exists (c :: t). cbv beta iota delta [bind]. rewrite Ht. split; [reflexivity|].
    assert (Hh : is_high c = false) by (unfold is_high; zleb).
    destruct t as [|n r]; [simpl in *; now subst|].
    rewrite decode_spec_cons2, Hh. cbn [andb]. now rewrite Hdt.
  - destruct ((0x10000 <=? c) && (c <=? 0x10FFFF)) eqn:E2;
      [|exfalso; revert E1 E2; zleb; discriminate].
    apply andb_true_iff in E2 as [E2 E2']; apply Z.leb_le in E2, E2'.
    eexists. cbv beta iota delta [bind]. rewrite Ht. split; [reflexivity|].
    assert (Hq : 0 <= (c - 0x10000) / 0x400 < 0x400).
    { split; [apply Z.div_pos; lia|apply Z.div_lt_upper_bound; lia]. }
    assert (Hr : 0 <= (c - 0x10000) mod 0x400 < 0x400) by (apply Z.mod_pos_bound; lia).
    pose proof (Z.div_mod (c - 0x10000) 0x400 ltac:(lia)) as Hdm.
    cbn [app]. rewrite decode_spec_cons2.
    assert (Hp : is_high (0xD800 + (c - 0x10000) / 0x400) = true /\
                 is_low (0xDC00 + (c - 0x10000) mod 0x400) = true)
      by (unfold is_high, is_low; split; zleb).
    destruct Hp as [-> ->]. cbn [andb]. rewrite Hdt. f_equal. lia.
Qed.

Lemma fromCodePoint_toCodePoints_roundtrip_witness :
  exists s, fromCodePoint [0x41; 0x1E800; 0x10FFFF] = Ok s /\
            toCodePoints s = [0x41; 0x1E800; 0x10FFFF].
Proof.
  apply fromCodePoint_toCodePoints_roundtrip. repeat constructor; lia.
Defined.

(** Each decoded value takes one or two units. *)
Theorem toCodePoints_length (s : jsstring) :
  (length (toCodePoints s) <= length s <= 2 * length (toCodePoints s))%nat.
Proof.
  rewrite toCodePoints_decode_spec.
  induction s as [|u|u n r IHr IHnr] using jsstring_pair_ind; [simpl; lia|simpl; lia|].
  rewrite decode_spec_cons2. destruct (is_high u && is_low n); simpl in *; lia.
Qed.

(** After the mapping step no value is in the commonly-mapped-to-nothing
    table, and a value in the non-ASCII-space table can only be U+0020. *)
Theorem mapped_input_invariant (T : code_points) (cps : list Z) (c : Z) :
  In c (mapped_input T cps) ->
  commonly_mapped_to_nothing T c = false /\
  (non_ASCII_space_characters T c = true -> c = 0x20).
Proof.
  intros Hin. split; [eapply mapped_input_not_nothing; eauto|].
  unfold mapped_input in Hin. apply filter_In in Hin as [Hin _].
  apply in_map_iff in Hin as [c0 [Hc0 _]].
  destruct (non_ASCII_space_characters T c0) eqn:E; [now subst|].
  subst c0. rewrite E. discriminate.
Qed.

Lemma mapped_input_invariant_witness :
  commonly_mapped_to_nothing sample_tables 0x20 = false /\
  (non_ASCII_space_characters sample_tables 0x20 = true -> 0x20 = 0x20).
Proof.
  apply (mapped_input_invariant sample_tables [0x61; 0xA0; 0xAD]).
  vm_compute. auto.
Defined.

(** The mapping step is idempotent. *)
Theorem mapped_input_idempotent (T : code_points) (cps : list Z) :
  mapped_input T (mapped_input T cps) = mapped_input T cps.
Proof.
  apply mapped_input_id. intros c Hin.
  pose proof (mapped_input_not_nothing T cps c Hin) as Hn. split; [exact Hn|].
  unfold mapped_input in Hin. apply filter_In in Hin as [Hin _].
  apply in_map_iff in Hin as [c0 [Hc0 _]].
  destruct (non_ASCII_space_characters T c0) eqn:E; [now subst|].
  subst c0. rewrite E. discriminate.
Qed.

(** On a well-formed input [saslprep] never throws the [RangeError] of
    [String.fromCodePoint]: every mapped value is a decoded value or
    U+0020. *)
Theorem saslprep_no_range_error normalize T x opts :
  utf16 x -> saslprep normalize T x opts <> Throw RangeError.
Proof.
  intros Hx. destruct x as [|u x']; [discriminate|].
  assert (Hr : Forall (fun c => 0 <= c <= 0x10FFFF) (mapped_input T (toCodePoints (u :: x')))).
  { pose proof (toCodePoints_in_range _ Hx) as Hd. apply Forall_forall. intros c Hin.
    unfold mapped_input in Hin. apply filter_In in Hin as [Hin _].
    apply in_map_iff in Hin as [c0 [Hc0 Hin0]].
    rewrite Forall_forall in Hd. specialize (Hd c0 Hin0).
    destruct (non_ASCII_space_characters T c0); subst; lia. }
  destruct (fromCodePoint_in_range _ Hr) as [s Hs].
  unfold saslprep. change (Nat.eqb (length (u :: x')) 0) with false. cbv iota.
  unfold normalized_input. rewrite Hs. cbv beta iota delta [bind].
  run; discriminate.
Qed.

Lemma saslprep_no_range_error_witness :
  saslprep nfkc_on_stable sample_tables [0xDBFF; 0xAD; 0xDFFF] default_options
    <> Throw RangeError.
Proof.
  apply saslprep_no_range_error. unfold utf16; repeat constructor; lia.
Defined.

(** What a successful result satisfies: no prohibited code point, no
    unassigned one unless [allowUnassigned] is [true], not both RandALCat
    and LCat, and, when a RandALCat code point is present, its first and
    last units are in the RandALCat table. *)
Theorem saslprep_ok_checks normalize T x opts y :
  saslprep normalize T x opts = Ok y ->
  existsb (prohibited_characters T) (toCodePoints y) = false /\
  (allowUnassigned opts <> Some true ->
   existsb (unassigned_code_points T) (toCodePoints y) = false) /\
  existsb (bidirectional_r_al T) (toCodePoints y) &&
    existsb (bidirectional_l T) (toCodePoints y) = false /\
  (existsb (bidirectional_r_al T) (toCodePoints y) = true ->
   option_map (bidirectional_r_al T) (first y) = Some true /\
   option_map (bidirectional_r_al T) (last y) = Some true).
Proof.
  intros H. destruct x as [|u x'].
  - injection H as <-. repeat split; intros; try reflexivity; discriminate.
  - unfold saslprep in H. change (Nat.eqb (length (u :: x')) 0) with false in H.
    cbv iota in H.
    destruct (normalized_input normalize T (u :: x')) as [y'|e];
      cbv beta iota delta [bind] in H; [|discriminate].
    run_in H; try discriminate; injection H as <-.
    all: (split; [assumption|]);
      (split; [intros Ha; first [assumption
                                | destruct (allowUnassigned opts) as [[]|];
                                  cbn in *; congruence] |]);
      (split; [assumption|]); intros Hral;
      match goal with
      | Hf : first _ = Some _, Hl : last _ = Some _, Hb : _ && negb _ = false |- _ =>
          rewrite Hf, Hl; rewrite Hral in Hb; cbn [andb negb] in Hb;
          apply negb_false_iff, andb_true_iff in Hb as [Hb1 Hb2];
          cbn [option_map]; rewrite Hb1, Hb2; split; reflexivity
      end.
Qed.

Lemma saslprep_ok_checks_witness :
  existsb (prohibited_characters sample_tables) (toCodePoints [0x5D0; 0x5D0]) = false /\
  (allowUnassigned default_options <> Some true ->
   existsb (unassigned_code_points sample_tables) (toCodePoints [0x5D0; 0x5D0]) = false) /\
  existsb (bidirectional_r_al sample_tables) (toCodePoints [0x5D0; 0x5D0]) &&
    existsb (bidirectional_l sample_tables) (toCodePoints [0x5D0; 0x5D0]) = false /\
  (existsb (bidirectional_r_al sample_tables) (toCodePoints [0x5D0; 0x5D0]) = true ->
   option_map (bidirectional_r_al sample_tables) (first [0x5D0; 0x5D0]) = Some true /\
   option_map (bidirectional_r_al sample_tables) (last [0x5D0; 0x5D0]) = Some true).
Proof.
  apply (saslprep_ok_checks nfkc_on_stable sample_tables [0x5D0; 0xAD; 0x5D0]
           default_options).
  vm_compute; reflexivity.
Defined.

Lemma normalized_input_error normalize T x e :
  normalized_input normalize T x = Throw e -> e = RangeError.
Proof.
  unfold normalized_input. generalize (mapped_input T (toCodePoints x)).
  intros cps; induction cps as [|c cps IH]; cbn [fromCodePoint]; [discriminate|].
  unfold encode_code_point.
  destruct ((0 <=? c) && (c <=? 0xFFFF)), ((0x10000 <=? c) && (c <=? 0x10FFFF));
    cbv beta iota delta [bind]; try (intros H; injection H; auto);
    destruct (fromCodePoint cps) as [t|e']; cbv beta iota delta [bind] in *;
    (discriminate || (intros H; apply IH; exact H)).
Qed.

(** [saslprep] throws the [TypeError] of [undefined.codePointAt] exactly
    when the input is non-empty and maps and normalizes to the empty
    string. *)
Theorem saslprep_type_error_iff normalize T x opts :
  saslprep normalize T x opts = Throw UndefinedCodePointAt <->
  x <> [] /\ normalized_input normalize T x = Ok [].
Proof.
  destruct x as [|u x'].
  - split; [discriminate|intros [H _]; congruence].
  - unfold saslprep. change (Nat.eqb (length (u :: x')) 0) with false. cbv iota.
    destruct (normalized_input normalize T (u :: x')) as [y|e] eqn:Hn;
      cbv beta iota delta [bind].
    2: { apply normalized_input_error in Hn. subst e.
         split; [intros He|intros [_ He]]; discriminate. }
    split.
    + intros H. split; [discriminate|].
      destruct y as [|z y]; [reflexivity|exfalso].
      assert (Hl : last (z :: y) <> None).
      { unfold last. destruct (rev (z :: y)) eqn:Hr; [|discriminate].
        apply (f_equal (@length Z)) in Hr. rewrite length_rev in Hr. discriminate. }
      cbn [first getCodePoint] in H.
      destruct (last (z :: y)) as [l|]; [|congruence]. cbn [getCodePoint] in H.
      run_in H; discriminate.
    + intros [_ He]. injection He as ->.
      change (toCodePoints []) with (@nil Z). cbn [existsb andb negb throw_if].
      destruct (allowUnassigned opts) as [[]|]; reflexivity.
Qed.

(** Setting [allowUnassigned] to [true] keeps every success: the result is
    the same string. *)
Theorem allow_unassigned_keeps_success normalize T x opts y :
  saslprep normalize T x opts = Ok y ->
  saslprep normalize T x allow_unassigned = Ok y.
Proof.
  intros H. destruct x as [|u x']; [exact H|].
  unfold saslprep in *. change (Nat.eqb (length (u :: x')) 0) with false in *.
  cbv iota in *.
  destruct (normalized_input normalize T (u :: x')) as [y'|e];
    cbv beta iota delta [bind] in *; [|discriminate].
  unfold allow_unassigned; cbn [allowUnassigned negb].
  run_in H; try discriminate; run; congruence.
Qed.

Lemma allow_unassigned_keeps_success_witness :
  saslprep nfkc_on_stable sample_tables [0x5D0] allow_unassigned = Ok [0x5D0].
Proof.
  apply (allow_unassigned_keeps_success nfkc_on_stable sample_tables [0x5D0]
           default_options).
  vm_compute; reflexivity.
Defined.

(** Past the prohibit, unassigned and mixed-direction checks, the result on
    a non-empty normalized string [y] is decided by the RandALCat lookups of
    the first and the last UTF-16 unit of [y]. *)
Theorem edge_check_outcome normalize T x opts y f l :
  normalized_input normalize T x = Ok y ->
  x <> [] ->
  existsb (prohibited_characters T) (toCodePoints y) = false ->
  allowUnassigned opts = Some true \/
    existsb (unassigned_code_points T) (toCodePoints y) = false ->
  existsb (bidirectional_r_al T) (toCodePoints y) &&
    existsb (bidirectional_l T) (toCodePoints y) = false ->
  first y = Some f -> last y = Some l ->
  saslprep normalize T x opts =
  if existsb (bidirectional_r_al T) (toCodePoints y) &&
     negb (bidirectional_r_al T f && bidirectional_r_al T l)
  then Throw BidiEdgePlacement else Ok y.
Proof.
  intros Hn Hx Hp Hu Hmix Hf Hl. destruct x as [|u x']; [congruence|].
  unfold saslprep. change (Nat.eqb (length (u :: x')) 0) with false.
  cbv iota. rewrite Hn. cbv beta iota delta [bind throw_if getCodePoint].
  rewrite Hp, Hmix, Hf, Hl.
  assert (Hskip : (if negb match allowUnassigned opts with
                           | Some true => true | _ => false end
                   then if existsb (unassigned_code_points T) (toCodePoints y)
                        then @Throw unit UnassignedCodePoint else Ok tt
                   else Ok tt) = Ok tt).
  { destruct Hu as [-> | ->]; [reflexivity|].
    destruct (allowUnassigned opts) as [[]|]; reflexivity. }
  rewrite Hskip.
  destruct (existsb (bidirectional_r_al T) (toCodePoints y) &&
            negb (bidirectional_r_al T f && bidirectional_r_al T l)); reflexivity.
Qed.

Lemma edge_check_outcome_witness :
  saslprep nfkc_on_stable sample_tables [0x5D0; 0x31; 0x5D0] default_options
    = Ok [0x5D0; 0x31; 0x5D0].
Proof.
  apply (edge_check_outcome nfkc_on_stable sample_tables [0x5D0; 0x31; 0x5D0]
           default_options [0x5D0; 0x31; 0x5D0] 0x5D0 0x5D0);
    try reflexivity; [discriminate|right; reflexivity].
Defined.

(** [saslprep] reads its input only through the normalized string: two
    non-empty inputs with the same normalized string get the same result. *)
Theorem saslprep_factors_through_normalized normalize T x x' opts :
  x <> [] -> x' <> [] ->
  normalized_input normalize T x = normalized_input normalize T x' ->
  saslprep normalize T x opts = saslprep normalize T x' opts.
Proof. apply saslprep_same_normalized. Qed.

Lemma saslprep_factors_through_normalized_witness :
  saslprep nfkc_on_stable sample_tables [0x49; 0xAD; 0x58] default_options
    = saslprep nfkc_on_stable sample_tables [0x49; 0x58] default_options.
Proof.
  apply saslprep_factors_through_normalized; [discriminate|discriminate|].
  vm_compute; reflexivity.
Defined.

(** A non-empty input never succeeds with the empty string. *)
Theorem saslprep_ok_nonempty normalize T x opts y :
  x <> [] -> saslprep normalize T x opts = Ok y -> y <> [].
Proof. intros Hx H. exact (proj2 (saslprep_ok_inv normalize T x opts y Hx H)). Qed.

Lemma saslprep_ok_nonempty_witness : [0x49; 0x58] <> [].
Proof.
  apply (saslprep_ok_nonempty nfkc_on_stable sample_tables [0x49; 0xAD; 0x58]
           default_options); [discriminate|vm_compute; reflexivity].
Defined.
